(** * Cortex filter conversion and merging

    A shallow embedding of [cortex/core/filters/converter.py]
    ([runtime_filter_to_semantic], [merge_filters],
    [dict_to_semantic_filters]) together with the properties the
    specification states about them. *)

From Stdlib Require Import List String Ascii ZArith Bool Lia.
Import ListNotations.
Open Scope string_scope.
Open Scope list_scope.

Set Implicit Arguments.

(** ** Python values

    The parameters typed [Any] in the source range over Python objects.
    [None] is a value like the others, so an [Optional[Any]] field is a
    [PyValue] whose absent case is [PyNone]. *)

#[warnings="-register-all"]
Inductive PyValue : Type :=
| PyNone
| PyBool (b : bool)
| PyInt (z : Z)
| PyFloat (mantissa exponent : Z)
| PyStr (s : string)
| PyList (items : list PyValue)
| PyTuple (items : list PyValue)
| PyDict (items : list (string * PyValue)).

(** [isinstance(value, list)]: true of list objects only; strings, tuples
    and dicts are not instances of [list]. *)
Definition isinstance_list (value : PyValue) : bool :=
  match value with
  | PyList _ => true
  | _ => false
  end.

(** ** Vocabularies of [cortex.core.types.semantics.filter] *)

(** Modelled from the spec: the enum [FilterOperator] is imported by the
    converter but declared elsewhere.  The spec lists the members below
    followed by an ellipsis; a member it does not name is carried by its
    wire string. *)
Inductive FilterOperator : Type :=
| EQUALS
| NOT_EQUALS
| GREATER_THAN
| LESS_THAN
| IN
| NOT_IN
| BETWEEN
| OTHER_OPERATOR (wire : string).

(** Modelled from the spec: the [.value] of a [FilterOperator] member, its
    string-equivalent wire representation.  The spec fixes
    [filter_price_between] for [BETWEEN] and the converter's docstring
    lists the operators as [equals], [in], [between]; the other named
    members are given the same lower-case spelling.  No statement below
    depends on a value other than those three. *)
Definition operator_value (op : FilterOperator) : string :=
  match op with
  | EQUALS => "equals"
  | NOT_EQUALS => "not_equals"
  | GREATER_THAN => "greater_than"
  | LESS_THAN => "less_than"
  | IN => "in"
  | NOT_IN => "not_in"
  | BETWEEN => "between"
  | OTHER_OPERATOR wire => wire
  end.

(** Modelled from the spec: the enum [FilterValueType] (STRING, NUMBER and
    further members the spec leaves open). *)
Inductive FilterValueType : Type :=
| STRING
| NUMBER
| OTHER_VALUE_TYPE (wire : string).

(** Modelled from the spec: the enum [FilterType], WHERE or HAVING. *)
Inductive FilterType : Type :=
| WHERE
| HAVING.

(** Modelled from the spec: the class [SemanticFilter] of
    [cortex.core.semantics.filters], the Filter Value Object.  It is a pure
    data holder whose construction checks nothing; the fields are the
    keyword arguments the converter passes to it. *)
Record SemanticFilter : Type := mkSemanticFilter {
  name : string;
  query : string;
  operator : FilterOperator;
  value : PyValue;
  values : option (list PyValue);
  min_value : PyValue;
  max_value : PyValue;
  table : option string;
  value_type : FilterValueType;
  filter_type : FilterType;
  is_active : bool
}.

(** ** [runtime_filter_to_semantic] *)

(** The f-string [f"filter_{dimension}_{operator.value}"]. *)
Definition auto_name (dimension : string) (op : FilterOperator) : string :=
  ("filter_" ++ dimension ++ "_" ++ operator_value op)%string.

(** All eleven parameters are explicit here; the callers below pass the
    source's defaults ([None], [STRING], [WHERE], [True], [None]) for the
    keyword arguments they leave out. *)
Definition runtime_filter_to_semantic
    (dimension : string) (op : FilterOperator)
    (value : PyValue) (values : option (list PyValue))
    (min_value max_value : PyValue) (table : option string)
    (value_type : FilterValueType) (filter_type : FilterType)
    (is_active : bool) (name : option string) : SemanticFilter :=
  let name :=
    match name with
    | None => auto_name dimension op
    | Some given => given
    end in
  mkSemanticFilter name dimension op value values min_value max_value
                   table value_type filter_type is_active.

(** ** Python dictionaries

    A [dict] keeps its keys in insertion order, and assigning to a key that
    is already present overwrites the value where the key stands.  Order
    matters for [merge_filters], so the dictionary is an association list
    in insertion order. *)

Definition pydict (V : Type) : Type := list (string * V).

(** [d[k] = v] *)
Fixpoint dict_setitem (V : Type) (d : pydict V) (k : string) (v : V)
  : pydict V :=
  match d with
  | [] => [(k, v)]
  | (k', v') :: rest =>
      if String.eqb k' k then (k', v) :: rest
      else (k', v') :: dict_setitem rest k v
  end.

(** [d.get(k)] *)
Fixpoint dict_get (V : Type) (d : pydict V) (k : string) : option V :=
  match d with
  | [] => None
  | (k', v') :: rest => if String.eqb k' k then Some v' else dict_get rest k
  end.

(** [d.keys()] and [d.values()], in insertion order. *)
Definition dict_keys (V : Type) (d : pydict V) : list string := map fst d.
Definition dict_values (V : Type) (d : pydict V) : list V := map snd d.

(** ** [merge_filters] *)

(** Both the comprehension [{f.name: f for f in existing_filters}] and the
    loop [for runtime_filter in runtime_filters: merged[...] = ...] assign
    the filters of a list, left to right, under their names. *)
Definition assign_by_name (merged : pydict SemanticFilter)
    (filters : list SemanticFilter) : pydict SemanticFilter :=
  fold_left (fun d f => dict_setitem d (name f) f) filters merged.

(** Truth value of a list: [not l] holds of the empty list. *)
Definition is_empty (A : Type) (l : list A) : bool :=
  match l with
  | [] => true
  | _ :: _ => false
  end.

Definition merge_filters (existing_filters : option (list SemanticFilter))
    (runtime_filters : list SemanticFilter) (replace : bool)
  : list SemanticFilter :=
  if replace then runtime_filters
  else
    match existing_filters with
    | None => runtime_filters
    | Some existing =>
        if is_empty existing then runtime_filters
        else if is_empty runtime_filters then existing
        else
          let merged := assign_by_name [] existing in
          let merged := assign_by_name merged runtime_filters in
          dict_values merged
    end.

(** ** [dict_to_semantic_filters] *)

(** A value known to be a list, passed where [Optional[List[Any]]] is
    expected. *)
Definition list_items (value : PyValue) : option (list PyValue) :=
  match value with
  | PyList items => Some items
  | _ => None
  end.

(** The body of the loop: the filter built for one [(dimension, value)]
    item. *)
Definition filter_of_item (dimension : string) (value : PyValue)
  : SemanticFilter :=
  if isinstance_list value then
    (* Use IN operator for list values *)
    runtime_filter_to_semantic dimension IN PyNone (list_items value)
      PyNone PyNone None STRING WHERE true None
  else
    (* Use EQUALS operator for single values *)
    runtime_filter_to_semantic dimension EQUALS value None
      PyNone PyNone None STRING WHERE true None.

(** [filter_dict.items()] is the association list itself; each iteration
    appends one filter to [filters]. *)
Definition dict_to_semantic_filters (filter_dict : pydict PyValue)
  : list SemanticFilter :=
  fold_left
    (fun filters item => filters ++ [filter_of_item (fst item) (snd item)])
    filter_dict [].

(** * Vocabulary of the statements *)

(** The names of a list of filters, in list order. *)
Definition names (l : list SemanticFilter) : list string := map name l.

Definition name_in (n : string) (ns : list string) : bool :=
  existsb (String.eqb n) ns.

(** The distinct names of [ns], each at the place of its first
    occurrence. *)
Fixpoint first_occurrences (ns : list string) : list string :=
  match ns with
  | [] => []
  | n :: rest =>
      n :: filter (fun m => negb (String.eqb n m)) (first_occurrences rest)
  end.

(** The last filter of [l] that bears the name [n]. *)
Fixpoint last_named (n : string) (l : list SemanticFilter)
  : option SemanticFilter :=
  match l with
  | [] => None
  | f :: rest =>
      match last_named n rest with
      | Some g => Some g
      | None => if String.eqb (name f) n then Some f else None
      end
  end.

(** The entry that stands for [f] once [runtime] has been assigned over
    it. *)
Definition override (runtime : list SemanticFilter) (f : SemanticFilter)
  : SemanticFilter :=
  match last_named (name f) runtime with
  | Some g => g
  | None => f
  end.

(** Names that [baseline] does not have. *)
Definition fresh_for (baseline : list SemanticFilter) (n : string) : bool :=
  negb (name_in n (names baseline)).

(** Every key of the dictionary is the name of the filter stored under
    it. *)
Definition keyed_by_name (d : pydict SemanticFilter) : Prop :=
  Forall (fun kv => fst kv = name (snd kv)) d.

(** The filter the merge keeps under the name [n]: the last one of
    [runtime] with that name, and failing that the last one of
    [baseline]. *)
Definition resolve (baseline runtime : list SemanticFilter) (n : string)
  : option SemanticFilter :=
  match last_named n runtime with
  | Some g => Some g
  | None => last_named n baseline
  end.

(** A filter on [amount] named [n], for the examples below. *)
Definition sample (n : string) (v : Z) : SemanticFilter :=
  runtime_filter_to_semantic "amount" GREATER_THAN (PyInt v) None
    PyNone PyNone None NUMBER WHERE true (Some n).

(** * Membership and first occurrences *)

Lemma name_in_In (n : string) (ns : list string) :
  name_in n ns = true <-> In n ns.
Proof.
  unfold name_in. rewrite existsb_exists. split.
  - intros (m & Hm & E). apply String.eqb_eq in E. now subst.
  - intros H. exists n. split; [assumption | apply String.eqb_refl].
Qed.

Lemma name_in_false (n : string) (ns : list string) :
  name_in n ns = false <-> ~ In n ns.
Proof.
  rewrite <- name_in_In. destruct (name_in n ns); split; congruence.
Qed.

Lemma name_in_app (n : string) (xs ys : list string) :
  name_in n (xs ++ ys) = name_in n xs || name_in n ys.
Proof. unfold name_in. apply existsb_app. Qed.

Lemma first_occurrences_In (n : string) (ns : list string) :
  In n (first_occurrences ns) <-> In n ns.
Proof.
  induction ns as [|m rest IH]; simpl; [tauto|].
  rewrite filter_In, IH. split.
  - intros [H | [H _]]; auto.
  - intros [H | H]; auto.
    destruct (String.eqb m n) eqn:E.
    + apply String.eqb_eq in E. auto.
    + right. split; [assumption | reflexivity].
Qed.

Lemma name_in_first_occurrences (n : string) (ns : list string) :
  name_in n (first_occurrences ns) = name_in n ns.
Proof.
  destruct (name_in n ns) eqn:E.
  - apply name_in_In, first_occurrences_In, name_in_In, E.
  - apply name_in_false. rewrite first_occurrences_In.
    now apply name_in_false.
Qed.

Lemma first_occurrences_NoDup (ns : list string) :
  NoDup (first_occurrences ns).
Proof.
  induction ns as [|m rest IH]; simpl; constructor.
  - rewrite filter_In. intros [_ H].
    now rewrite String.eqb_refl in H.
  - now apply NoDup_filter.
Qed.

Lemma filter_filter_comm (A : Type) (p q : A -> bool) (l : list A) :
  filter p (filter q l) = filter q (filter p l).
Proof.
  induction l as [|a l IH]; simpl; [reflexivity|].
  destruct (p a) eqn:P, (q a) eqn:Q; simpl; rewrite ?P, ?Q, IH; reflexivity.
Qed.

Lemma filter_andb (A : Type) (p q : A -> bool) (l : list A) :
  filter p (filter q l) = filter (fun a => p a && q a) l.
Proof.
  induction l as [|a l IH]; simpl; [reflexivity|].
  destruct (q a) eqn:Q; simpl; rewrite IH.
  - now rewrite andb_true_r.
  - now rewrite andb_false_r.
Qed.

Lemma filter_id_in (A : Type) (p : A -> bool) (l : list A) :
  (forall a, In a l -> p a = true) -> filter p l = l.
Proof.
  induction l as [|a l IH]; simpl; intros H; [reflexivity|].
  rewrite (H a) by auto. f_equal. apply IH. auto.
Qed.

Lemma first_occurrences_filter (p : string -> bool) (ns : list string) :
  first_occurrences (filter p ns) = filter p (first_occurrences ns).
Proof.
  induction ns as [|m rest IH]; simpl; [reflexivity|].
  destruct (p m) eqn:P; simpl; rewrite IH.
  - now rewrite filter_filter_comm.
  - rewrite filter_filter_comm. symmetry.
    apply filter_id_in. intros x Hx.
    apply filter_In in Hx as [_ Px].
    destruct (String.eqb m x) eqn:E; [|reflexivity].
    apply String.eqb_eq in E. congruence.
Qed.

Lemma first_occurrences_distinct (ns : list string) :
  NoDup ns -> first_occurrences ns = ns.
Proof.
  induction 1 as [|m rest Hm _ IH]; simpl; [reflexivity|].
  rewrite IH. f_equal. apply filter_id_in. intros x Hx.
  destruct (String.eqb m x) eqn:E; [|reflexivity].
  apply String.eqb_eq in E. congruence.
Qed.

(** * Dictionary assignment *)

Section Dict.
Variable V : Type.
Implicit Types (d : pydict V) (k : string) (v : V).

Lemma dict_keys_setitem d k v :
  dict_keys (dict_setitem d k v) =
  if name_in k (dict_keys d) then dict_keys d else dict_keys d ++ [k].
Proof.
  induction d as [|[k' v'] rest IH]; simpl; [reflexivity|].
  rewrite (String.eqb_sym k k').
  destruct (String.eqb k' k) eqn:E; simpl; [reflexivity|].
  fold (dict_keys rest) in *. fold (name_in k (dict_keys rest)).
  unfold dict_keys in *. rewrite IH.
  now destruct (name_in k (map fst rest)).
Qed.

Lemma dict_get_setitem d k v k' :
  dict_get (dict_setitem d k v) k' =
  if String.eqb k k' then Some v else dict_get d k'.
Proof.
  induction d as [|[k0 v0] rest IH]; simpl; [reflexivity|].
  destruct (String.eqb k0 k) eqn:E; simpl.
  - apply String.eqb_eq in E. subst k0.
    now destruct (String.eqb k k').
  - rewrite IH. destruct (String.eqb k0 k') eqn:E0; [|reflexivity].
    apply String.eqb_eq in E0. subst k'. now rewrite String.eqb_sym, E.
Qed.

Lemma dict_get_In d k v :
  NoDup (dict_keys d) -> In (k, v) d -> dict_get d k = Some v.
Proof.
  induction d as [|[k0 v0] rest IH]; simpl; [tauto|].
  intros Hnd [H | H].
  - injection H as -> ->. now rewrite String.eqb_refl.
  - inversion Hnd as [|? ? Hk0 Hrest]; subst.
    destruct (String.eqb k0 k) eqn:E.
    + apply String.eqb_eq in E. subst k0. exfalso. apply Hk0.
      change k with (fst (k, v)). now apply in_map.
    + now apply IH.
Qed.

Lemma dict_get_None d k :
  dict_get d k = None <-> ~ In k (dict_keys d).
Proof.
  induction d as [|[k0 v0] rest IH]; simpl; [tauto|].
  destruct (String.eqb k0 k) eqn:E.
  - apply String.eqb_eq in E. split; [discriminate | tauto].
  - apply String.eqb_neq in E. rewrite IH. tauto.
Qed.
End Dict.

(** * Assigning a list of filters under their names *)

Lemma assign_by_name_cons d f l :
  assign_by_name d (f :: l) = assign_by_name (dict_setitem d (name f) f) l.
Proof. reflexivity. Qed.

Lemma assign_by_name_keys l : forall d,
  dict_keys (assign_by_name d l) =
  dict_keys d ++
  first_occurrences
    (filter (fun n => negb (name_in n (dict_keys d))) (names l)).
Proof.
  induction l as [|f l IH]; intros d.
  - simpl. now rewrite app_nil_r.
  - rewrite assign_by_name_cons, IH, dict_keys_setitem. simpl.
    destruct (name_in (name f) (dict_keys d)) eqn:E; simpl.
    + reflexivity.
    + rewrite <- app_assoc. simpl. do 2 f_equal.
      rewrite <- first_occurrences_filter, filter_andb.
      f_equal. apply filter_ext. intros n.
      rewrite name_in_app. simpl.
      rewrite orb_false_r, negb_orb, (String.eqb_sym n (name f)).
      apply andb_comm.
Qed.

Lemma assign_by_name_get l : forall d n,
  dict_get (assign_by_name d l) n =
  match last_named n l with
  | Some g => Some g
  | None => dict_get d n
  end.
Proof.
  induction l as [|f l IH]; intros d n; [reflexivity|].
  rewrite assign_by_name_cons, IH, dict_get_setitem. simpl.
  destruct (last_named n l); [reflexivity|].
  now destruct (String.eqb (name f) n).
Qed.

Lemma dict_setitem_keyed d f :
  keyed_by_name d -> keyed_by_name (dict_setitem d (name f) f).
Proof.
  unfold keyed_by_name.
  induction d as [|[k' v'] rest IH]; simpl; intros H.
  - now repeat constructor.
  - inversion H as [|? ? Hk Hrest]; subst. simpl in Hk.
    destruct (String.eqb k' (name f)) eqn:E.
    + constructor; [|assumption]. now apply String.eqb_eq in E.
    + constructor; [assumption | now apply IH].
Qed.

Lemma assign_by_name_keyed l : forall d,
  keyed_by_name d -> keyed_by_name (assign_by_name d l).
Proof.
  induction l as [|f l IH]; intros d H; [assumption|].
  rewrite assign_by_name_cons. now apply IH, dict_setitem_keyed.
Qed.

Lemma keyed_names d :
  keyed_by_name d -> names (dict_values d) = dict_keys d.
Proof.
  unfold names, dict_values, dict_keys. rewrite map_map.
  intros H. apply map_ext_in. intros kv Hkv.
  symmetry. revert kv Hkv. now apply Forall_forall.
Qed.

(** * The last filter of a name *)

Lemma last_named_Some n l g :
  last_named n l = Some g -> name g = n /\ In g l.
Proof.
  induction l as [|f l IH]; simpl; [discriminate|].
  destruct (last_named n l) as [h|].
  - intros [= <-]. destruct IH as [? ?]; auto.
  - destruct (String.eqb (name f) n) eqn:E; [|discriminate].
    intros [= <-]. apply String.eqb_eq in E. auto.
Qed.

Lemma last_named_None n l :
  last_named n l = None <-> name_in n (names l) = false.
Proof.
  induction l as [|f l IH]; simpl; [tauto|].
  rewrite (String.eqb_sym n (name f)).
  destruct (last_named n l) as [h|].
  - split; [discriminate|]. intros H.
    apply orb_false_iff in H as [_ H]. apply IH in H. discriminate.
  - destruct IH as [IH _]. rewrite (IH eq_refl), orb_false_r.
    destruct (String.eqb (name f) n); split; congruence.
Qed.

Lemma last_named_distinct l f :
  NoDup (names l) -> In f l -> last_named (name f) l = Some f.
Proof.
  induction l as [|h l IH]; simpl; [tauto|].
  intros Hnd Hin. inversion Hnd as [|? ? Hh Hl]; subst.
  destruct Hin as [-> | Hin].
  - assert (E : last_named (name f) l = None).
    { apply last_named_None, name_in_false, Hh. }
    now rewrite E, String.eqb_refl.
  - now rewrite (IH Hl Hin).
Qed.

(** * The merged dictionary *)

Lemma dict_get_Some (V : Type) (d : pydict V) (k : string) (v : V) :
  dict_get d k = Some v -> exists k', In (k', v) d /\ k' = k.
Proof.
  induction d as [|[k0 v0] rest IH]; simpl; [discriminate|].
  destruct (String.eqb k0 k) eqn:E.
  - intros [= ->]. apply String.eqb_eq in E. eauto.
  - intros H. destruct (IH H) as (k' & Hin & ->). eauto.
Qed.

Lemma merged_keys (baseline runtime : list SemanticFilter) :
  dict_keys (assign_by_name (assign_by_name [] baseline) runtime) =
  first_occurrences (names baseline) ++
  first_occurrences (filter (fresh_for baseline) (names runtime)).
Proof.
  rewrite assign_by_name_keys.
  assert (K : dict_keys (assign_by_name [] baseline) =
              first_occurrences (names baseline)).
  { rewrite assign_by_name_keys. simpl. f_equal. now apply filter_id_in. }
  rewrite K. do 2 f_equal. apply filter_ext. intros n.
  unfold fresh_for. now rewrite name_in_first_occurrences.
Qed.

Lemma merged_keys_NoDup (baseline runtime : list SemanticFilter) :
  NoDup (dict_keys (assign_by_name (assign_by_name [] baseline) runtime)).
Proof.
  rewrite merged_keys. apply NoDup_app; try apply first_occurrences_NoDup.
  intros n Hb Hr.
  apply -> first_occurrences_In in Hb.
  apply -> first_occurrences_In in Hr.
  apply filter_In in Hr as [_ Hr].
  unfold fresh_for in Hr. apply <- name_in_In in Hb.
  rewrite Hb in Hr. discriminate.
Qed.

Lemma merged_keyed (baseline runtime : list SemanticFilter) :
  keyed_by_name (assign_by_name (assign_by_name [] baseline) runtime).
Proof. do 2 apply assign_by_name_keyed. constructor. Qed.

Lemma merged_get (baseline runtime : list SemanticFilter) (n : string) :
  dict_get (assign_by_name (assign_by_name [] baseline) runtime) n =
  resolve baseline runtime n.
Proof.
  unfold resolve. rewrite !assign_by_name_get. simpl.
  now destruct (last_named n runtime), (last_named n baseline).
Qed.

Lemma merge_filters_both (baseline runtime : list SemanticFilter) :
  baseline <> [] -> runtime <> [] ->
  merge_filters (Some baseline) runtime false =
  dict_values (assign_by_name (assign_by_name [] baseline) runtime).
Proof.
  intros Hb Hr. unfold merge_filters.
  destruct baseline; [congruence|]. destruct runtime; [congruence|].
  reflexivity.
Qed.

Lemma merged_In (baseline runtime : list SemanticFilter) (f : SemanticFilter) :
  In f (dict_values (assign_by_name (assign_by_name [] baseline) runtime))
  <-> resolve baseline runtime (name f) = Some f.
Proof.
  rewrite <- merged_get. split.
  - intros H. apply in_map_iff in H as ([k v] & E & Hin). simpl in E. subst v.
    pose proof (merged_keyed baseline runtime) as K.
    unfold keyed_by_name in K. rewrite Forall_forall in K.
    specialize (K _ Hin). simpl in K. subst k.
    apply dict_get_In; [apply merged_keys_NoDup | assumption].
  - intros H. apply dict_get_Some in H as (k & Hin & _).
    change f with (snd (k, f)). now apply in_map.
Qed.

Lemma merged_names (baseline runtime : list SemanticFilter) :
  baseline <> [] -> runtime <> [] ->
  names (merge_filters (Some baseline) runtime false) =
  first_occurrences (names baseline) ++
  first_occurrences (filter (fresh_for baseline) (names runtime)).
Proof.
  intros Hb Hr. rewrite merge_filters_both by assumption.
  rewrite keyed_names by apply merged_keyed. apply merged_keys.
Qed.

Lemma merged_resolve (baseline runtime : list SemanticFilter)
    (f : SemanticFilter) :
  baseline <> [] -> runtime <> [] ->
  In f (merge_filters (Some baseline) runtime false)
  <-> resolve baseline runtime (name f) = Some f.
Proof.
  intros Hb Hr. rewrite merge_filters_both by assumption. apply merged_In.
Qed.

Lemma resolve_runtime (baseline runtime : list SemanticFilter)
    (n : string) (f : SemanticFilter) :
  name_in n (names runtime) = true ->
  resolve baseline runtime n = Some f <-> last_named n runtime = Some f.
Proof.
  unfold resolve. intros H.
  destruct (last_named n runtime) eqn:E; [tauto|].
  apply last_named_None in E. congruence.
Qed.

Lemma resolve_baseline (baseline runtime : list SemanticFilter)
    (n : string) (f : SemanticFilter) :
  name_in n (names runtime) = false ->
  resolve baseline runtime n = Some f <-> last_named n baseline = Some f.
Proof.
  unfold resolve. intros H. apply last_named_None in H. now rewrite H.
Qed.

(** Two lists that bear the same names in the same order and hold, under
    each name, the filter the merge keeps, are the same list. *)
Lemma resolved_lists_equal (baseline runtime : list SemanticFilter) :
  forall l1 l2,
  names l1 = names l2 ->
  (forall f, In f l1 -> resolve baseline runtime (name f) = Some f) ->
  (forall f, In f l2 -> resolve baseline runtime (name f) = Some f) ->
  l1 = l2.
Proof.
  induction l1 as [|f l1 IH]; intros [|g l2] Hn H1 H2;
    try discriminate; [reflexivity|].
  simpl in Hn. injection Hn as Hfg Hn.
  assert (E : Some f = Some g).
  { rewrite <- (H1 f), <- (H2 g), Hfg by (simpl; auto). reflexivity. }
  injection E as ->. f_equal.
  apply IH; [assumption | |]; intros h Hh; [apply H1 | apply H2];
    simpl; auto.
Qed.

Lemma override_name (runtime : list SemanticFilter) (f : SemanticFilter) :
  name (override runtime f) = name f.
Proof.
  unfold override. destruct (last_named (name f) runtime) eqn:E;
    [|reflexivity].
  now apply last_named_Some in E.
Qed.

Lemma names_filter (p : string -> bool) (l : list SemanticFilter) :
  names (filter (fun g => p (name g)) l) = filter p (names l).
Proof.
  induction l as [|f l IH]; simpl; [reflexivity|].
  destruct (p (name f)); simpl; now rewrite IH.
Qed.

(** With distinct names in each list, the merge is the baseline with the
    overridden entries replaced where they stand, followed by the runtime
    filters whose names are new. *)
Lemma merge_filters_distinct (baseline runtime : list SemanticFilter) :
  baseline <> [] -> runtime <> [] ->
  NoDup (names baseline) -> NoDup (names runtime) ->
  merge_filters (Some baseline) runtime false =
  map (override runtime) baseline ++
  filter (fun g => fresh_for baseline (name g)) runtime.
Proof.
  intros Hb Hr Db Dr.
  apply (@resolved_lists_equal baseline runtime).
  - rewrite merged_names by assumption.
    unfold names at 3. rewrite map_app. fold (names (map (override runtime) baseline)).
    fold (names (filter (fun g => fresh_for baseline (name g)) runtime)).
    rewrite names_filter.
    rewrite !first_occurrences_distinct
      by (try apply NoDup_filter; assumption).
    f_equal. unfold names. rewrite map_map. symmetry.
    apply map_ext. apply override_name.
  - intros f. now apply merged_resolve.
  - intros f Hf. apply in_app_or in Hf as [Hf | Hf].
    + apply in_map_iff in Hf as (f0 & <- & Hf0).
      unfold override, resolve.
      destruct (last_named (name f0) runtime) as [g|] eqn:E.
      * destruct (last_named_Some _ _ E) as [-> _]. now rewrite E.
      * rewrite E. now apply last_named_distinct.
    + apply filter_In in Hf as [Hf _]. unfold resolve.
      now rewrite (last_named_distinct _ _ Dr Hf).
Qed.

(** * Sample merges *)

Example merge_overwrite_keeps_position :
  merge_filters (Some [sample "a" 1; sample "b" 2; sample "c" 3])
                [sample "d" 4; sample "b" 5] false
  = [sample "a" 1; sample "b" 5; sample "c" 3; sample "d" 4].
Proof. reflexivity. Qed.

Example merge_duplicate_baseline :
  merge_filters (Some [sample "a" 1; sample "b" 2; sample "a" 3])
                [sample "c" 4] false
  = [sample "a" 3; sample "b" 2; sample "c" 4].
Proof. reflexivity. Qed.

(** * Theorems about [merge_filters] *)

(** C1.  For non-empty [baseline] and [runtime], the names of
    [merge(baseline, runtime, false)] are the names of the baseline in
    their baseline order (each at the place of its first occurrence),
    whether or not the runtime overrides them, followed by the names that
    only the runtime has, in runtime order.  An entry whose name the
    runtime does not have is the baseline's entry of that name; an entry
    whose name the runtime has carries the runtime's entry.  When names
    are distinct within each list this is the baseline list itself with
    every overridden entry replaced where it stands, and the new runtime
    filters appended. *)
Theorem merge_filters_order (baseline runtime : list SemanticFilter) :
  baseline <> [] -> runtime <> [] ->
  names (merge_filters (Some baseline) runtime false) =
    first_occurrences (names baseline) ++
    first_occurrences (filter (fresh_for baseline) (names runtime))
  /\ (forall f, In f (merge_filters (Some baseline) runtime false) ->
        ~ In (name f) (names runtime) ->
        last_named (name f) baseline = Some f)
  /\ (forall f, In f (merge_filters (Some baseline) runtime false) ->
        In (name f) (names runtime) ->
        last_named (name f) runtime = Some f)
  /\ (NoDup (names baseline) -> NoDup (names runtime) ->
        merge_filters (Some baseline) runtime false =
        map (override runtime) baseline ++
        filter (fun g => fresh_for baseline (name g)) runtime).
Proof.
  intros Hb Hr. repeat split.
  - now apply merged_names.
  - intros f Hf Hn. apply merged_resolve in Hf; try assumption.
    apply name_in_false in Hn. now apply resolve_baseline in Hf.
  - intros f Hf Hn. apply merged_resolve in Hf; try assumption.
    apply name_in_In in Hn. now apply resolve_runtime in Hf.
  - now apply merge_filters_distinct.
Qed.

Lemma sample_names_distinct3 (a b c : string) :
  a <> b -> a <> c -> b <> c -> NoDup [a; b; c].
Proof.
  intros ab ac bc. repeat constructor; simpl; intuition congruence.
Defined.

Lemma merge_filters_order_witness :
  [sample "a" 1; sample "b" 2; sample "c" 3] <> [] /\
  [sample "d" 4; sample "b" 5] <> [] /\
  NoDup (names [sample "a" 1; sample "b" 2; sample "c" 3]) /\
  NoDup (names [sample "d" 4; sample "b" 5]) /\
  merge_filters (Some [sample "a" 1; sample "b" 2; sample "c" 3])
                [sample "d" 4; sample "b" 5] false =
  map (override [sample "d" 4; sample "b" 5])
      [sample "a" 1; sample "b" 2; sample "c" 3] ++
  filter (fun g => fresh_for [sample "a" 1; sample "b" 2; sample "c" 3]
                             (name g))
         [sample "d" 4; sample "b" 5].
Proof.
  assert (Hb : [sample "a" 1; sample "b" 2; sample "c" 3] <> [])
    by discriminate.
  assert (Hr : [sample "d" 4; sample "b" 5] <> []) by discriminate.
  assert (Db : NoDup (names [sample "a" 1; sample "b" 2; sample "c" 3])).
  { apply sample_names_distinct3; discriminate. }
  assert (Dr : NoDup (names [sample "d" 4; sample "b" 5])).
  { repeat constructor; simpl; intuition discriminate. }
  split; [exact Hb|]. split; [exact Hr|].
  split; [exact Db|]. split; [exact Dr|].
  exact (proj2 (proj2 (proj2 (merge_filters_order Hb Hr))) Db Dr).
Defined.

Lemma last_named_exists (n : string) (l : list SemanticFilter) :
  In n (names l) -> exists g, last_named n l = Some g.
Proof.
  intros H. destruct (last_named n l) as [g|] eqn:E; [eauto|].
  apply last_named_None, name_in_false in E. contradiction.
Qed.

Lemma merged_names_NoDup (baseline runtime : list SemanticFilter) :
  baseline <> [] -> runtime <> [] ->
  NoDup (names (merge_filters (Some baseline) runtime false)).
Proof.
  intros Hb Hr. rewrite merge_filters_both by assumption.
  rewrite keyed_names by apply merged_keyed. apply merged_keys_NoDup.
Qed.

(** C2, as the code has it.  For non-empty [baseline] and [runtime]: a
    baseline entry whose name the runtime does not have, and which is the
    last baseline entry of its name, is in the merge unchanged (so every
    such entry is, when the baseline's names are distinct); and for a name
    that both lists have, the merge holds the last runtime entry of that
    name and no other entry of that name. *)
Theorem merge_filters_content (baseline runtime : list SemanticFilter) :
  baseline <> [] -> runtime <> [] ->
  (forall f, In f baseline -> ~ In (name f) (names runtime) ->
     last_named (name f) baseline = Some f ->
     In f (merge_filters (Some baseline) runtime false))
  /\ (NoDup (names baseline) ->
      forall f, In f baseline -> ~ In (name f) (names runtime) ->
      In f (merge_filters (Some baseline) runtime false))
  /\ (forall n, In n (names baseline) -> In n (names runtime) ->
      exists g, last_named n runtime = Some g
        /\ In g (merge_filters (Some baseline) runtime false)
        /\ forall f, In f (merge_filters (Some baseline) runtime false) ->
             name f = n -> f = g).
Proof.
  intros Hb Hr.
  assert (Keep : forall f, ~ In (name f) (names runtime) ->
            last_named (name f) baseline = Some f ->
            In f (merge_filters (Some baseline) runtime false)).
  { intros f Hn Hl. apply merged_resolve; try assumption.
    apply resolve_baseline; [now apply name_in_false | assumption]. }
  split; [|split].
  - intros f _. apply Keep.
  - intros Db f Hf Hn. apply Keep; [assumption|].
    now apply last_named_distinct.
  - intros n _ Hn. destruct (last_named_exists _ _ Hn) as [g Hg].
    pose proof (last_named_Some _ _ Hg) as [Ng _].
    apply name_in_In in Hn.
    exists g. split; [assumption|]. split.
    + apply merged_resolve; try assumption. rewrite Ng.
      now apply resolve_runtime.
    + intros f Hf Nf. apply merged_resolve in Hf; try assumption.
      rewrite Nf in Hf. apply resolve_runtime in Hf; [|assumption].
      congruence.
Qed.

Lemma merge_filters_content_witness :
  [sample "a" 1; sample "b" 2] <> [] /\
  [sample "b" 5; sample "d" 4] <> [] /\
  NoDup (names [sample "a" 1; sample "b" 2]) /\
  In (sample "a" 1) [sample "a" 1; sample "b" 2] /\
  ~ In (name (sample "a" 1)) (names [sample "b" 5; sample "d" 4]) /\
  In (sample "a" 1)
     (merge_filters (Some [sample "a" 1; sample "b" 2])
                    [sample "b" 5; sample "d" 4] false).
Proof.
  assert (Hb : [sample "a" 1; sample "b" 2] <> []) by discriminate.
  assert (Hr : [sample "b" 5; sample "d" 4] <> []) by discriminate.
  assert (Db : NoDup (names [sample "a" 1; sample "b" 2])).
  { repeat constructor; simpl; intuition discriminate. }
  assert (Hf : In (sample "a" 1) [sample "a" 1; sample "b" 2])
    by (left; reflexivity).
  assert (Hn : ~ In (name (sample "a" 1))
                    (names [sample "b" 5; sample "d" 4])).
  { simpl. intuition discriminate. }
  split; [exact Hb|]. split; [exact Hr|]. split; [exact Db|].
  split; [exact Hf|]. split; [exact Hn|].
  exact (proj1 (proj2 (merge_filters_content Hb Hr)) Db _ Hf Hn).
Defined.

(** C2 as stated fails when the baseline has two entries of one name:
    the earlier one, although the runtime does not have its name, is not
    in the merge. *)
Lemma merge_filters_content_counterexample :
  [sample "a" 1; sample "a" 2] <> [] /\
  [sample "b" 3] <> [] /\
  In (sample "a" 1) [sample "a" 1; sample "a" 2] /\
  ~ In (name (sample "a" 1)) (names [sample "b" 3]) /\
  merge_filters (Some [sample "a" 1; sample "a" 2]) [sample "b" 3] false
  = [sample "a" 2; sample "b" 3] /\
  ~ In (sample "a" 1)
       (merge_filters (Some [sample "a" 1; sample "a" 2])
                      [sample "b" 3] false).
Proof.
  split; [discriminate|]. split; [discriminate|].
  split; [left; reflexivity|].
  split; [simpl; intuition discriminate|].
  split; [reflexivity|].
  simpl. intros [H | [H | []]]; discriminate H.
Qed.

(** C3.  With [replace] true the merge is the runtime list, whatever the
    baseline argument is: absent, empty or not. *)
Theorem merge_filters_replace
    (existing_filters : option (list SemanticFilter))
    (runtime_filters : list SemanticFilter) :
  merge_filters existing_filters runtime_filters true = runtime_filters.
Proof. reflexivity. Qed.

(** C4.  [merge_filters] is a total function and its early returns are
    no-ops: an absent baseline and an empty baseline give the runtime list,
    an empty runtime list gives the baseline. *)
Theorem merge_filters_noop :
  (forall runtime, merge_filters None runtime false = runtime)
  /\ (forall runtime, merge_filters (Some []) runtime false = runtime)
  /\ (forall baseline, merge_filters (Some baseline) [] false = baseline).
Proof.
  repeat split; try reflexivity.
  intros [|f baseline]; reflexivity.
Qed.

Lemma filter_none_in (A : Type) (p : A -> bool) (l : list A) :
  (forall a, In a l -> p a = false) -> filter p l = [].
Proof.
  induction l as [|a l IH]; simpl; intros H; [reflexivity|].
  rewrite (H a) by auto. apply IH. auto.
Qed.

Lemma merge_self_names (l : list SemanticFilter) :
  names (merge_filters (Some l) l false) = first_occurrences (names l).
Proof.
  destruct l as [|f l]; [reflexivity|].
  rewrite merged_names by discriminate.
  rewrite filter_none_in, app_nil_r; [reflexivity|].
  intros n Hn. unfold fresh_for. apply name_in_In in Hn. now rewrite Hn.
Qed.

(** C7.  Merging a list with itself: the merge has the names of the list,
    holds under every name what the list holds under it (its last filter
    of that name, the one a dictionary keyed by name keeps), and is the
    list itself when its names are distinct. *)
Theorem merge_filters_idempotent (l : list SemanticFilter) :
  (forall n, In n (names (merge_filters (Some l) l false)) <-> In n (names l))
  /\ (forall n, last_named n (merge_filters (Some l) l false)
               = last_named n l)
  /\ (NoDup (names l) -> merge_filters (Some l) l false = l).
Proof.
  split; [|split].
  - intros n. rewrite merge_self_names. apply first_occurrences_In.
  - intros n. destruct l as [|f0 l0]; [reflexivity|].
    set (l := f0 :: l0).
    assert (Hl : l <> []) by discriminate.
    destruct (last_named n l) as [g|] eqn:E.
    + pose proof (last_named_Some _ _ E) as [Ng _]. subst n.
      apply last_named_distinct; [now apply merged_names_NoDup|].
      apply merged_resolve; try assumption.
      unfold resolve. now rewrite E.
    + apply last_named_None. rewrite merge_self_names.
      rewrite name_in_first_occurrences. now apply last_named_None.
  - intros D. destruct l as [|f0 l0]; [reflexivity|].
    set (l := f0 :: l0) in *.
    assert (Hl : l <> []) by discriminate.
    apply (@resolved_lists_equal l l).
    + rewrite merge_self_names. now apply first_occurrences_distinct.
    + intros f. now apply merged_resolve.
    + intros f Hf. unfold resolve. now rewrite (last_named_distinct _ _ D Hf).
Qed.

Lemma merge_filters_idempotent_witness :
  NoDup (names [sample "a" 1; sample "b" 2; sample "c" 3]) /\
  merge_filters (Some [sample "a" 1; sample "b" 2; sample "c" 3])
                [sample "a" 1; sample "b" 2; sample "c" 3] false
  = [sample "a" 1; sample "b" 2; sample "c" 3].
Proof.
  assert (D : NoDup (names [sample "a" 1; sample "b" 2; sample "c" 3])).
  { apply sample_names_distinct3; discriminate. }
  split; [exact D|].
  exact (proj2 (proj2
           (merge_filters_idempotent
              [sample "a" 1; sample "b" 2; sample "c" 3])) D).
Defined.

(** C10.  With [replace] false and both lists non-empty the merge has at
    most one filter per name, whatever duplicates the inputs have: a name
    only the baseline has keeps the baseline's last filter of that name,
    and a name the runtime has keeps the runtime's last filter of that
    name.  The branches that return an argument as it is (replace, absent
    or empty baseline, empty runtime) return duplicate names when the
    argument has them. *)
Theorem merge_filters_one_per_name :
  (forall baseline runtime, baseline <> [] -> runtime <> [] ->
     NoDup (names (merge_filters (Some baseline) runtime false))
     /\ (forall n, In n (names baseline) -> ~ In n (names runtime) ->
         exists f, last_named n baseline = Some f
           /\ In f (merge_filters (Some baseline) runtime false))
     /\ (forall n, In n (names runtime) ->
         exists g, last_named n runtime = Some g
           /\ In g (merge_filters (Some baseline) runtime false)))
  /\ (exists dup, ~ NoDup (names dup)
        /\ (forall baseline, merge_filters baseline dup true = dup)
        /\ merge_filters None dup false = dup
        /\ merge_filters (Some []) dup false = dup
        /\ merge_filters (Some dup) [] false = dup).
Proof.
  split.
  - intros baseline runtime Hb Hr. split; [|split].
    + now apply merged_names_NoDup.
    + intros n Hn Hrn. destruct (last_named_exists _ _ Hn) as [f Hf].
      pose proof (last_named_Some _ _ Hf) as [Nf _].
      exists f. split; [assumption|].
      apply merged_resolve; try assumption. rewrite Nf.
      apply resolve_baseline; [now apply name_in_false | assumption].
    + intros n Hn. destruct (last_named_exists _ _ Hn) as [g Hg].
      pose proof (last_named_Some _ _ Hg) as [Ng _].
      exists g. split; [assumption|].
      apply merged_resolve; try assumption. rewrite Ng.
      apply resolve_runtime; [now apply name_in_In | assumption].
  - exists [sample "a" 1; sample "a" 2]. repeat split.
    intros D. inversion D as [|? ? Hin _]. apply Hin. left. reflexivity.
Qed.

Lemma merge_filters_one_per_name_witness :
  [sample "a" 1; sample "b" 2; sample "a" 3] <> [] /\
  [sample "b" 4; sample "b" 5] <> [] /\
  NoDup (names (merge_filters (Some [sample "a" 1; sample "b" 2; sample "a" 3])
                              [sample "b" 4; sample "b" 5] false)).
Proof.
  assert (Hb : [sample "a" 1; sample "b" 2; sample "a" 3] <> [])
    by discriminate.
  assert (Hr : [sample "b" 4; sample "b" 5] <> []) by discriminate.
  split; [exact Hb|]. split; [exact Hr|].
  exact (proj1 (proj1 merge_filters_one_per_name _ _ Hb Hr)).
Defined.

Example merge_duplicates_collapse :
  merge_filters (Some [sample "a" 1; sample "b" 2; sample "a" 3])
                [sample "b" 4; sample "b" 5] false
  = [sample "a" 3; sample "b" 5].
Proof. reflexivity. Qed.

(** * Theorems about the constructors *)

Lemma isinstance_list_true (value : PyValue) :
  isinstance_list value = true <-> exists items, value = PyList items.
Proof.
  destruct value; simpl; split; try discriminate; eauto;
    intros [l H]; discriminate H.
Qed.

Lemma append_loop (A B : Type) (g : A -> B) (l : list A) : forall acc,
  fold_left (fun filters item => filters ++ [g item]) l acc = acc ++ map g l.
Proof.
  induction l as [|a l IH]; intros acc; simpl.
  - now rewrite app_nil_r.
  - now rewrite IH, <- app_assoc.
Qed.

Lemma dict_to_semantic_filters_map (filter_dict : pydict PyValue) :
  dict_to_semantic_filters filter_dict =
  map (fun item => filter_of_item (fst item) (snd item)) filter_dict.
Proof. unfold dict_to_semantic_filters. now rewrite append_loop. Qed.

Lemma dict_to_semantic_filters_app (d1 d2 : pydict PyValue) :
  dict_to_semantic_filters (d1 ++ d2) =
  dict_to_semantic_filters d1 ++ dict_to_semantic_filters d2.
Proof. rewrite !dict_to_semantic_filters_map. apply map_app. Qed.

(** C5.  [dict_to_semantic_filters] emits one filter per item of the
    mapping, in the mapping's order: on the item's dimension, auto-named,
    with operator IN and [values] the item's value when that value is a
    list, and with operator EQUALS and [value] the item's value otherwise.
    The mapping of [status] to a string and [region] to a list of three
    strings gives the two filters of the example, in that order. *)
Theorem dict_to_semantic_filters_items :
  (forall filter_dict,
     Forall2
       (fun item f =>
          query f = fst item
          /\ name f = auto_name (fst item) (operator f)
          /\ (forall items, snd item = PyList items ->
                operator f = IN /\ values f = Some items /\ value f = PyNone)
          /\ (isinstance_list (snd item) = false ->
                operator f = EQUALS /\ value f = snd item /\ values f = None))
       filter_dict (dict_to_semantic_filters filter_dict))
  /\ dict_to_semantic_filters
       [("status", PyStr "active");
        ("region", PyList [PyStr "US"; PyStr "EU"; PyStr "APAC"])]
     = [ {| name := "filter_status_equals"; query := "status";
            operator := EQUALS; value := PyStr "active"; values := None;
            min_value := PyNone; max_value := PyNone; table := None;
            value_type := STRING; filter_type := WHERE; is_active := true |};
         {| name := "filter_region_in"; query := "region";
            operator := IN; value := PyNone;
            values := Some [PyStr "US"; PyStr "EU"; PyStr "APAC"];
            min_value := PyNone; max_value := PyNone; table := None;
            value_type := STRING; filter_type := WHERE; is_active := true |} ].
Proof.
  split; [|reflexivity].
  intros filter_dict. rewrite dict_to_semantic_filters_map.
  induction filter_dict as [|[dimension v] rest IH]; simpl;
    constructor; [|exact IH].
  simpl. split; [now destruct v|]. split; [now destruct v|]. split.
  - intros items ->. repeat split.
  - destruct v; simpl; intros H; try discriminate H; repeat split.
Qed.

(** C6.  [runtime_filter_to_semantic] copies its arguments into the new
    filter, the dimension under [query]; it returns a filter whatever the
    value fields are, absent ones included; and without a name it names
    the filter "filter_" + dimension + "_" + the operator's value, which for
    [price] and BETWEEN is [filter_price_between]. *)
Theorem runtime_filter_to_semantic_copies :
  (forall dimension op v vs lo hi tbl vt ft active given,
     runtime_filter_to_semantic dimension op v vs lo hi tbl vt ft active given
     = {| name := match given with
                  | Some n => n
                  | None =>
                      ("filter_" ++ dimension ++ "_" ++ operator_value op)%string
                  end;
          query := dimension; operator := op; value := v; values := vs;
          min_value := lo; max_value := hi; table := tbl;
          value_type := vt; filter_type := ft; is_active := active |})
  /\ (forall dimension op tbl vt ft active,
        name (runtime_filter_to_semantic dimension op PyNone None PyNone PyNone
                tbl vt ft active None)
        = ("filter_" ++ dimension ++ "_" ++ operator_value op)%string)
  /\ name (runtime_filter_to_semantic "price" BETWEEN PyNone None
             (PyInt 10) (PyInt 100) None STRING WHERE true None)
     = "filter_price_between".
Proof.
  split; [intros; reflexivity|]. split; [intros; reflexivity | reflexivity].
Qed.

(** C8.  A string value is a scalar: wherever an item whose value is a
    string stands in the mapping, the filter emitted for it has operator
    EQUALS and the whole string as [value], and no [values]. *)
Theorem dict_to_semantic_filters_string_scalar
    (before after : pydict PyValue) (dimension s : string) :
  exists f,
    dict_to_semantic_filters (before ++ (dimension, PyStr s) :: after)
    = dict_to_semantic_filters before ++ f :: dict_to_semantic_filters after
    /\ query f = dimension
    /\ operator f = EQUALS
    /\ operator f <> IN
    /\ value f = PyStr s
    /\ values f = None.
Proof.
  exists (filter_of_item dimension (PyStr s)).
  rewrite dict_to_semantic_filters_app.
  change ((dimension, PyStr s) :: after)
    with ([(dimension, PyStr s)] ++ after).
  rewrite dict_to_semantic_filters_app.
  repeat split. discriminate.
Qed.

(** C9.  For distinct dimensions [a] and [b], the filters built from
    [(a, 1), (b, 2)] and from [(b, 2), (a, 1)] are different sequences. *)
Theorem dict_to_semantic_filters_order_sensitive (a b : string) :
  a <> b ->
  dict_to_semantic_filters [(a, PyInt 1); (b, PyInt 2)]
  <> dict_to_semantic_filters [(b, PyInt 2); (a, PyInt 1)].
Proof.
  intros Hab E. rewrite !dict_to_semantic_filters_map in E.
  apply (f_equal (map query)) in E. simpl in E.
  injection E as E _. exact (Hab E).
Qed.

Lemma dict_to_semantic_filters_order_sensitive_witness :
  "status" <> "region" /\
  dict_to_semantic_filters [("status", PyInt 1); ("region", PyInt 2)]
  <> dict_to_semantic_filters [("region", PyInt 2); ("status", PyInt 1)].
Proof.
  assert (H : "status" <> "region") by discriminate.
  split; [exact H|].
  exact (dict_to_semantic_filters_order_sensitive H).
Defined.

(** * Looking a name up in a merge *)

Lemma last_named_app (n : string) (l1 l2 : list SemanticFilter) :
  last_named n (l1 ++ l2) = resolve l1 l2 n.
Proof.
  unfold resolve. induction l1 as [|f l1 IH]; simpl.
  - now destruct (last_named n l2).
  - rewrite IH. destruct (last_named n l2); [reflexivity|].
    reflexivity.
Qed.

Lemma name_in_last_named (n : string) (l : list SemanticFilter) :
  name_in n (names l) =
  match last_named n l with Some _ => true | None => false end.
Proof.
  destruct (last_named n l) as [g|] eqn:E.
  - destruct (name_in n (names l)) eqn:N; [reflexivity|].
    apply last_named_None in N. congruence.
  - now apply last_named_None.
Qed.

Lemma merged_nonempty (baseline runtime : list SemanticFilter) :
  baseline <> [] -> runtime <> [] ->
  merge_filters (Some baseline) runtime false <> [].
Proof.
  intros Hb Hr E. apply (f_equal names) in E.
  rewrite merged_names in E by assumption.
  destruct baseline; [congruence | discriminate E].
Qed.

Lemma merged_lookup (baseline runtime : list SemanticFilter) (n : string) :
  last_named n (merge_filters (Some baseline) runtime false)
  = resolve baseline runtime n.
Proof.
  destruct baseline as [|b0 bs].
  { unfold resolve. simpl. now destruct (last_named n runtime). }
  destruct runtime as [|r0 rs]; [reflexivity|].
  set (baseline := b0 :: bs). set (runtime := r0 :: rs).
  assert (Hb : baseline <> []) by discriminate.
  assert (Hr : runtime <> []) by discriminate.
  destruct (resolve baseline runtime n) as [g|] eqn:E.
  - assert (Ng : name g = n).
    { unfold resolve in E. destruct (last_named n runtime) eqn:R.
      - injection E as ->. now apply last_named_Some in R.
      - now apply last_named_Some in E. }
    subst n. apply last_named_distinct; [now apply merged_names_NoDup|].
    now apply merged_resolve.
  - apply last_named_None. rewrite merged_names by assumption.
    rewrite name_in_app, !name_in_first_occurrences.
    unfold resolve in E. destruct (last_named n runtime) eqn:R;
      [discriminate|].
    apply last_named_None in E. apply last_named_None in R.
    rewrite E, orb_false_l. apply name_in_false. intros H.
    apply filter_In in H as [H _]. apply name_in_In in H. congruence.
Qed.

Lemma merged_name_in (baseline runtime : list SemanticFilter) (n : string) :
  name_in n (names (merge_filters (Some baseline) runtime false))
  = name_in n (names baseline) || name_in n (names runtime).
Proof.
  rewrite !name_in_last_named, merged_lookup. unfold resolve.
  destruct (last_named n runtime), (last_named n baseline); reflexivity.
Qed.

(** Two lists that bear the same distinct names in the same order and
    hold the same filter under every name are the same list. *)
Lemma lists_equal_by_name (l1 l2 : list SemanticFilter) :
  names l1 = names l2 -> NoDup (names l1) ->
  (forall n, last_named n l1 = last_named n l2) ->
  l1 = l2.
Proof.
  intros Hn D L. apply (@resolved_lists_equal l1 []); [assumption | |].
  - intros f Hf. unfold resolve. simpl. now apply last_named_distinct.
  - intros f Hf. unfold resolve. simpl. rewrite L.
    apply last_named_distinct; [now rewrite <- Hn | assumption].
Qed.

(** * Further properties of [merge_filters] *)

(** X1.  Lookup after merge (replace off): the filter found under a name
    in the merge is the one found in the runtime list, and when the
    runtime list has none, the one found in the baseline; an absent
    baseline contributes nothing.  Equivalently the merge answers every
    lookup by name as the concatenation baseline ++ runtime does. *)
Theorem merge_filters_lookup :
  (forall baseline runtime n,
     last_named n (merge_filters (Some baseline) runtime false)
     = match last_named n runtime with
       | Some g => Some g
       | None => last_named n baseline
       end)
  /\ (forall baseline runtime n,
       last_named n (merge_filters (Some baseline) runtime false)
       = last_named n (baseline ++ runtime))
  /\ (forall runtime n,
       last_named n (merge_filters None runtime false)
       = last_named n runtime).
Proof.
  split; [|split].
  - intros baseline runtime n. apply merged_lookup.
  - intros baseline runtime n. now rewrite merged_lookup, last_named_app.
  - reflexivity.
Qed.

(** X2.  With replace off, a name is borne by some filter of the merge
    exactly when the baseline or the runtime list bears it, for all lists,
    empty ones included. *)
Theorem merge_filters_names_union
    (baseline runtime : list SemanticFilter) (n : string) :
  In n (names (merge_filters (Some baseline) runtime false))
  <-> In n (names baseline) \/ In n (names runtime).
Proof.
  rewrite <- !name_in_In, merged_name_in. apply orb_true_iff.
Qed.

(** X3.  The merge invents nothing: in every mode, each filter of the
    result is, unchanged, a filter of the runtime list or of the baseline
    that was passed. *)
Theorem merge_filters_provenance
    (existing_filters : option (list SemanticFilter))
    (runtime_filters : list SemanticFilter) (replace : bool)
    (f : SemanticFilter) :
  In f (merge_filters existing_filters runtime_filters replace) ->
  In f runtime_filters
  \/ exists existing, existing_filters = Some existing /\ In f existing.
Proof.
  destruct replace; [now left|].
  destruct existing_filters as [existing|]; [|now left].
  destruct existing as [|b0 bs]; [now left|].
  destruct runtime_filters as [|r0 rs]; [intros H; right; eauto|].
  intros H. apply merged_resolve in H; try discriminate.
  unfold resolve in H.
  destruct (last_named (name f) (r0 :: rs)) eqn:R.
  - injection H as ->. left. now apply last_named_Some in R.
  - right. exists (b0 :: bs). split; [reflexivity|].
    now apply last_named_Some in H.
Qed.

Lemma merge_filters_provenance_witness :
  In (sample "b" 5)
     (merge_filters (Some [sample "a" 1; sample "b" 2]) [sample "b" 5] false)
  /\ (In (sample "b" 5) [sample "b" 5]
      \/ exists existing,
           Some [sample "a" 1; sample "b" 2] = Some existing
           /\ In (sample "b" 5) existing).
Proof.
  assert (H : In (sample "b" 5)
                 (merge_filters (Some [sample "a" 1; sample "b" 2])
                                [sample "b" 5] false)).
  { simpl. right. left. reflexivity. }
  split; [exact H|].
  exact (merge_filters_provenance _ _ _ _ H).
Defined.

Lemma first_occurrences_length (ns : list string) :
  List.length (first_occurrences ns) <= List.length ns.
Proof.
  induction ns as [|n rest IH]; simpl; [lia|].
  pose proof (filter_length_le (fun m => negb (String.eqb n m))
                (first_occurrences rest)).
  lia.
Qed.

Lemma names_app (l1 l2 : list SemanticFilter) :
  names (l1 ++ l2) = names l1 ++ names l2.
Proof. apply map_app. Qed.

Lemma names_length (l : list SemanticFilter) :
  List.length (names l) = List.length l.
Proof. apply length_map. Qed.

Lemma merged_fresh (baseline runtime : list SemanticFilter) (n : string) :
  fresh_for (merge_filters (Some baseline) runtime false) n
  = fresh_for baseline n && fresh_for runtime n.
Proof. unfold fresh_for. now rewrite merged_name_in, negb_orb. Qed.

(** X4.  Merging is associative with replace off: layering three lists
    gives the same list whether the first two or the last two are merged
    first, for all lists, empty ones and ones with repeated names
    included. *)
Theorem merge_filters_assoc (a b c : list SemanticFilter) :
  merge_filters (Some (merge_filters (Some a) b false)) c false
  = merge_filters (Some a) (merge_filters (Some b) c false) false.
Proof.
  destruct a as [|a0 a']; [reflexivity|].
  destruct b as [|b0 b']; [reflexivity|].
  destruct c as [|c0 c'].
  { change (merge_filters (Some (b0 :: b')) [] false) with (b0 :: b').
    now destruct (merge_filters (Some (a0 :: a')) (b0 :: b') false). }
  set (a := a0 :: a'). set (b := b0 :: b'). set (c := c0 :: c').
  assert (Ha : a <> []) by discriminate.
  assert (Hb : b <> []) by discriminate.
  assert (Hc : c <> []) by discriminate.
  pose proof (merged_nonempty Ha Hb) as Hab.
  pose proof (merged_nonempty Hb Hc) as Hbc.
  apply lists_equal_by_name.
  - rewrite (merged_names Hab Hc), (merged_names Ha Hbc).
    rewrite (first_occurrences_distinct (merged_names_NoDup Ha Hb)).
    rewrite (merged_names Ha Hb), (merged_names Hb Hc).
    rewrite <- app_assoc. f_equal.
    rewrite !first_occurrences_filter.
    rewrite (@first_occurrences_distinct
               (first_occurrences (names b) ++
                filter (fresh_for b) (first_occurrences (names c)))).
    2:{ apply NoDup_app; try apply NoDup_filter;
          try apply first_occurrences_NoDup.
        intros n H1 H2. apply filter_In in H2 as [H2 F].
        apply -> first_occurrences_In in H1.
        apply name_in_In in H1. unfold fresh_for in F.
        rewrite H1 in F. discriminate F. }
    rewrite filter_app. f_equal.
    rewrite filter_andb. apply filter_ext. intros n.
    apply merged_fresh.
  - now apply merged_names_NoDup.
  - intros n. rewrite !merged_lookup. unfold resolve.
    rewrite !merged_lookup. unfold resolve.
    destruct (last_named n c), (last_named n b); reflexivity.
Qed.

(** X5.  When no name occurs twice across the baseline and the runtime
    list, the merge with replace off is the baseline followed by the
    runtime list: runtime filters under new names are appended, nothing is
    dropped or reordered. *)
Theorem merge_filters_append (baseline runtime : list SemanticFilter) :
  NoDup (names (baseline ++ runtime)) ->
  merge_filters (Some baseline) runtime false = baseline ++ runtime.
Proof.
  intros D.
  destruct baseline as [|b0 bs]; [reflexivity|].
  destruct runtime as [|r0 rs]; [now rewrite app_nil_r|].
  set (baseline := b0 :: bs) in *. set (runtime := r0 :: rs) in *.
  assert (Hb : baseline <> []) by discriminate.
  assert (Hr : runtime <> []) by discriminate.
  assert (E : names (merge_filters (Some baseline) runtime false)
              = names (baseline ++ runtime)).
  { rewrite (merged_names Hb Hr), names_app. rewrite names_app in D.
    rewrite (first_occurrences_distinct (NoDup_app_remove_r _ _ D)).
    f_equal.
    rewrite first_occurrences_distinct
      by (apply NoDup_filter; exact (NoDup_app_remove_l _ _ D)).
    apply filter_id_in. intros n Hn. unfold fresh_for.
    apply negb_true_iff, name_in_false. intros Hin.
    clear - D Hn Hin. induction (names baseline) as [|m ms IH].
    - contradiction.
    - simpl in D. inversion D as [|? ? Hm Hms]; subst.
      destruct Hin as [-> | Hin]; [|now apply IH].
      apply Hm, in_or_app. now right. }
  apply lists_equal_by_name; [exact E | | ].
  - rewrite E. exact D.
  - intros n. now rewrite merged_lookup, last_named_app.
Qed.

Lemma merge_filters_append_witness :
  NoDup (names ([sample "a" 1; sample "b" 2] ++ [sample "c" 3]))
  /\ merge_filters (Some [sample "a" 1; sample "b" 2]) [sample "c" 3] false
     = [sample "a" 1; sample "b" 2] ++ [sample "c" 3].
Proof.
  assert (D : NoDup (names ([sample "a" 1; sample "b" 2] ++ [sample "c" 3]))).
  { apply sample_names_distinct3; discriminate. }
  split; [exact D|].
  exact (merge_filters_append [sample "a" 1; sample "b" 2] [sample "c" 3] D).
Defined.

(** X6.  Applying the same runtime list a second time changes nothing:
    for a non-empty baseline, merging the runtime list into the result of
    merging it into the baseline gives that result again. *)
Theorem merge_filters_reapply (baseline runtime : list SemanticFilter) :
  baseline <> [] ->
  merge_filters (Some (merge_filters (Some baseline) runtime false))
                runtime false
  = merge_filters (Some baseline) runtime false.
Proof.
  intros Hb.
  destruct runtime as [|r0 rs].
  { destruct baseline; [congruence | reflexivity]. }
  set (runtime := r0 :: rs).
  assert (Hr : runtime <> []) by discriminate.
  pose proof (merged_nonempty Hb Hr) as Hm.
  apply lists_equal_by_name.
  - rewrite (merged_names Hm Hr).
    rewrite (first_occurrences_distinct (merged_names_NoDup Hb Hr)).
    rewrite filter_none_in; [now rewrite app_nil_r|].
    intros n Hn. rewrite merged_fresh. unfold fresh_for at 2.
    apply name_in_In in Hn. rewrite Hn. apply andb_false_r.
  - now apply merged_names_NoDup.
  - intros n. rewrite !merged_lookup. unfold resolve.
    rewrite merged_lookup. unfold resolve.
    now destruct (last_named n runtime).
Qed.

Lemma merge_filters_reapply_witness :
  [sample "a" 1; sample "b" 2] <> [] /\
  merge_filters
    (Some (merge_filters (Some [sample "a" 1; sample "b" 2])
                         [sample "b" 5; sample "b" 6] false))
    [sample "b" 5; sample "b" 6] false
  = merge_filters (Some [sample "a" 1; sample "b" 2])
                  [sample "b" 5; sample "b" 6] false.
Proof.
  assert (Hb : [sample "a" 1; sample "b" 2] <> []) by discriminate.
  split; [exact Hb|].
  exact (merge_filters_reapply [sample "b" 5; sample "b" 6] Hb).
Defined.

(** X7.  In every mode the merge is no longer than the two lists
    together, and with replace off it is empty only when both lists
    are. *)
Theorem merge_filters_length :
  (forall baseline runtime replace,
     List.length (merge_filters (Some baseline) runtime replace)
     <= List.length baseline + List.length runtime)
  /\ (forall runtime replace,
       List.length (merge_filters None runtime replace) = List.length runtime)
  /\ (forall baseline runtime,
       merge_filters (Some baseline) runtime false = [] <->
       baseline = [] /\ runtime = []).
Proof.
  split; [|split].
  - intros baseline runtime [|]; [simpl; lia|].
    destruct baseline as [|b0 bs]; [simpl; lia|].
    destruct runtime as [|r0 rs]; [simpl; lia|].
    set (baseline := b0 :: bs). set (runtime := r0 :: rs).
    rewrite <- (names_length (merge_filters _ _ _)).
    rewrite merged_names by discriminate.
    rewrite length_app.
    pose proof (first_occurrences_length (names baseline)) as L1.
    pose proof (first_occurrences_length
                  (filter (fresh_for baseline) (names runtime))) as L2.
    pose proof (filter_length_le (fresh_for baseline) (names runtime)) as L3.
    rewrite names_length in L1, L3. lia.
  - intros runtime [|]; reflexivity.
  - intros baseline runtime. split.
    + intros E. destruct baseline as [|b0 bs].
      * split; [reflexivity | exact E].
      * destruct runtime as [|r0 rs]; [discriminate E|].
        exfalso. revert E. apply merged_nonempty; discriminate.
    + intros [-> ->]. reflexivity.
Qed.

(** * Further properties of the constructors *)

Lemma list_ascii_of_string_app (s1 s2 : string) :
  list_ascii_of_string (s1 ++ s2)%string
  = list_ascii_of_string s1 ++ list_ascii_of_string s2.
Proof. induction s1 as [|c s1 IH]; simpl; [reflexivity | now rewrite IH]. Qed.

Lemma list_ascii_of_string_inj (s1 s2 : string) :
  list_ascii_of_string s1 = list_ascii_of_string s2 -> s1 = s2.
Proof.
  intros H. rewrite <- (string_of_list_ascii_of_string s1),
    <- (string_of_list_ascii_of_string s2). now rewrite H.
Qed.

Lemma string_app_inv_tail (s1 s2 t : string) :
  (s1 ++ t)%string = (s2 ++ t)%string -> s1 = s2.
Proof.
  intros H. apply list_ascii_of_string_inj.
  apply (f_equal list_ascii_of_string) in H.
  rewrite !list_ascii_of_string_app in H.
  now apply app_inv_tail in H.
Qed.

Lemma in_suffix_not_equals_suffix (s1 s2 : string) :
  (s1 ++ "_in")%string <> (s2 ++ "_equals")%string.
Proof.
  intros H. apply (f_equal list_ascii_of_string) in H.
  rewrite !list_ascii_of_string_app in H.
  apply (f_equal (@rev ascii)) in H.
  rewrite !rev_app_distr in H. discriminate H.
Qed.

Lemma filter_of_item_name (dimension : string) (v : PyValue) :
  name (filter_of_item dimension v)
  = auto_name dimension (if isinstance_list v then IN else EQUALS).
Proof. unfold filter_of_item. now destruct (isinstance_list v). Qed.

Lemma filter_of_item_name_inj (k1 k2 : string) (v1 v2 : PyValue) :
  name (filter_of_item k1 v1) = name (filter_of_item k2 v2) ->
  k1 = k2 /\ isinstance_list v1 = isinstance_list v2.
Proof.
  rewrite !filter_of_item_name. unfold auto_name.
  destruct (isinstance_list v1), (isinstance_list v2); simpl;
    intros H; injection H as H.
  - split; [|reflexivity]. now apply string_app_inv_tail in H.
  - now apply in_suffix_not_equals_suffix in H.
  - symmetry in H. now apply in_suffix_not_equals_suffix in H.
  - split; [|reflexivity]. now apply string_app_inv_tail in H.
Qed.

(** X8.  A mapping with distinct keys gives filters with distinct names:
    the auto-derived names of two items coincide only when the items have
    the same dimension, so merging the result drops none of them. *)
Theorem dict_to_semantic_filters_names_distinct
    (filter_dict : pydict PyValue) :
  NoDup (dict_keys filter_dict) ->
  NoDup (names (dict_to_semantic_filters filter_dict)).
Proof.
  rewrite dict_to_semantic_filters_map. unfold names, dict_keys.
  induction filter_dict as [|[k v] rest IH]; simpl; intros D.
  - constructor.
  - inversion D as [|? ? Hk Hrest]; subst. constructor; [|now apply IH].
    intros Hin. apply Hk.
    apply in_map_iff in Hin as (f & Hf & Hin).
    apply in_map_iff in Hin as ([k' v'] & <- & Hin). simpl in Hf.
    apply filter_of_item_name_inj in Hf as [-> _].
    change k with (fst (k, v')). now apply in_map.
Qed.

Lemma dict_to_semantic_filters_names_distinct_witness :
  NoDup (dict_keys [("status", PyStr "active");
                    ("region", PyList [PyStr "US"; PyStr "EU"])])
  /\ NoDup (names (dict_to_semantic_filters
                     [("status", PyStr "active");
                      ("region", PyList [PyStr "US"; PyStr "EU"])])).
Proof.
  assert (D : NoDup (dict_keys [("status", PyStr "active");
                                ("region", PyList [PyStr "US"; PyStr "EU"])])).
  { repeat constructor; simpl; intuition discriminate. }
  split; [exact D|].
  exact (dict_to_semantic_filters_names_distinct _ D).
Defined.

(** X9.  A filter built from a mapping item overrides one built from
    another item exactly when both items have the same dimension and are
    of the same kind (both lists or both scalars); otherwise the merge
    keeps both, the baseline's first.  So a scalar for a dimension does
    not override a list for it. *)
Theorem merge_filters_of_items (k1 k2 : string) (v1 v2 : PyValue) :
  merge_filters (Some [filter_of_item k1 v1]) [filter_of_item k2 v2] false
  = if String.eqb k1 k2
       && Bool.eqb (isinstance_list v1) (isinstance_list v2)
    then [filter_of_item k2 v2]
    else [filter_of_item k1 v1; filter_of_item k2 v2].
Proof.
  unfold merge_filters, assign_by_name. simpl.
  destruct (String.eqb (name (filter_of_item k1 v1))
                       (name (filter_of_item k2 v2))) eqn:E.
  - apply String.eqb_eq, filter_of_item_name_inj in E as [-> ->].
    now rewrite String.eqb_refl, Bool.eqb_reflx.
  - destruct (String.eqb k1 k2) eqn:K; [|reflexivity].
    destruct (Bool.eqb (isinstance_list v1) (isinstance_list v2)) eqn:B;
      [|reflexivity].
    apply String.eqb_eq in K. apply Bool.eqb_prop in B. subst k2.
    apply String.eqb_neq in E. exfalso. apply E.
    now rewrite !filter_of_item_name, B.
Qed.

(** X10.  Every filter built from a mapping is active, applies as WHERE,
    has value type STRING, no table and no range bounds, and never has
    both a [value] and [values]. *)
Theorem dict_to_semantic_filters_defaults (filter_dict : pydict PyValue) :
  Forall
    (fun f =>
       is_active f = true /\ filter_type f = WHERE /\ value_type f = STRING
       /\ table f = None /\ min_value f = PyNone /\ max_value f = PyNone
       /\ (operator f = IN \/ operator f = EQUALS)
       /\ (value f = PyNone \/ values f = None))
    (dict_to_semantic_filters filter_dict).
Proof.
  rewrite dict_to_semantic_filters_map. apply Forall_forall.
  intros f Hf. apply in_map_iff in Hf as ([k v] & <- & _). simpl.
  unfold filter_of_item. destruct (isinstance_list v); simpl; tauto.
Qed.

(** X11.  Two filters built without a name on the same dimension and
    operator bear the same auto-derived name, whatever their values, so
    the runtime one replaces the baseline one in a merge; built with two
    different explicit names, both are kept. *)
Theorem merge_filters_auto_named :
  (forall dimension op v1 vs1 lo1 hi1 t1 vt1 ft1 a1 v2 vs2 lo2 hi2 t2 vt2 ft2 a2,
     merge_filters
       (Some [runtime_filter_to_semantic dimension op v1 vs1 lo1 hi1
                t1 vt1 ft1 a1 None])
       [runtime_filter_to_semantic dimension op v2 vs2 lo2 hi2
          t2 vt2 ft2 a2 None] false
     = [runtime_filter_to_semantic dimension op v2 vs2 lo2 hi2
          t2 vt2 ft2 a2 None])
  /\ (forall n1 n2 dimension op v1 vs1 lo1 hi1 t1 vt1 ft1 a1
             v2 vs2 lo2 hi2 t2 vt2 ft2 a2,
        n1 <> n2 ->
        merge_filters
          (Some [runtime_filter_to_semantic dimension op v1 vs1 lo1 hi1
                   t1 vt1 ft1 a1 (Some n1)])
          [runtime_filter_to_semantic dimension op v2 vs2 lo2 hi2
             t2 vt2 ft2 a2 (Some n2)] false
        = [runtime_filter_to_semantic dimension op v1 vs1 lo1 hi1
             t1 vt1 ft1 a1 (Some n1);
           runtime_filter_to_semantic dimension op v2 vs2 lo2 hi2
             t2 vt2 ft2 a2 (Some n2)]).
Proof.
  split.
  - intros. unfold merge_filters, assign_by_name. simpl.
    now rewrite String.eqb_refl.
  - intros * Hn. unfold merge_filters, assign_by_name. simpl.
    apply String.eqb_neq in Hn. now rewrite Hn.
Qed.
